(** * ISS ground-track tracker: geodesy, path sampling, trail and time cursor

    A shallow embedding of the numeric and state logic of the ISS tracker
    scripts ([ISS_project1_20250523_1256.py], [ISS_project1_20250522_0036.py]
    and the earlier scripts of the project), with the properties the
    specification states about them.

    Modelling conventions.
    - A Python/NumPy [float] is a real number of [R]: arithmetic is exact,
      [np.sin], [np.cos], [np.arcsin], [np.sqrt] are the functions of the
      Standard Library's [Reals].  Rounding is not modelled.  The scripts
      call [np.arcsin] within [-1, 1] and [np.sqrt] on non-negative numbers
      only (lemmas [circle_lat_argument_bounds] and [hav_bounds]), where
      [asin] and [sqrt] are the mathematical functions.
    - A [datetime] is the integer count of its microseconds and a
      [timedelta] the integer count of its microseconds, both in [Z]; the
      calendar range of [datetime] is not modelled.
    - A raised exception is a value [Raised e] of the [result] type; a
      [while] loop takes fuel and answers [None] when the fuel is spent. *)

From Stdlib Require Import Reals Lra Psatz.
From Stdlib Require Import ZArith Lia List Bool String Ascii Permutation.
Import ListNotations.

(** ** NumPy primitives used by the scripts *)

Module NumPy.
Local Open Scope R_scope.

(** [np.radians]: degrees to radians. *)
Definition radians (x : R) : R := x * (PI / 180).

(** [np.degrees]: radians to degrees. *)
Definition degrees (x : R) : R := x * (180 / PI).

(** [np.arctan2 y x]: the angle of the point [(x, y)], in [(-PI, PI]];
    [arctan2 0 0 = 0]. *)
Definition arctan2 (y x : R) : R :=
  if Rlt_dec 0 x then atan (y / x)
  else if Rlt_dec x 0 then
    (if Rle_dec 0 y then atan (y / x) + PI else atan (y / x) - PI)
  else if Rlt_dec 0 y then PI / 2
  else if Rlt_dec y 0 then - (PI / 2)
  else 0.

(** Replace the last entry of a list ([y[-1] = v]). *)
Definition set_last (y : list R) (v : R) : list R := removelast y ++ [v].

(** [np.linspace start stop num] with the default [endpoint=True]:
    [num] samples [start + i * step], [step = (stop - start) / (num - 1)],
    the last one set to [stop] itself. *)
Definition linspace (start stop : R) (num : nat) : list R :=
  let div := (num - 1)%nat in
  let step := (stop - start) / INR div in
  let y := map (fun i => INR i * step + start) (seq 0 num) in
  if (1 <? num)%nat then set_last y stop else y.

End NumPy.

(** ** Geodesy utilities and the visibility circle *)

Module Geodesy.
Import NumPy.
Local Open Scope R_scope.

Definition earth_radius_km : R := 6371.

(** The body of the [for angle in angles] loop of
    [calculate_visibility_circle]: the point at bearing [angle] and ground
    distance [radius_km] from [(lat, lon)], as [(circle_lon, circle_lat)]
    in degrees. *)
Definition circle_point (lat lon radius_km angle : R) : R * R :=
  let delta := radius_km / earth_radius_km in
  let circle_lat :=
    asin (sin (radians lat) * cos delta +
          cos (radians lat) * sin delta * cos angle) in
  let circle_lon :=
    radians lon +
    arctan2 (sin angle * sin delta * cos (radians lat))
            (cos delta - sin (radians lat) * sin circle_lat) in
  (degrees circle_lon, degrees circle_lat).

(** The bearings of the circle: [np.linspace(0, 2 * np.pi, 100)]. *)
Definition angles : list R := linspace 0 (2 * PI) 100.

(** [calculate_visibility_circle lat lon radius_km] returns the pair
    [(circle_lons, circle_lats)]. *)
Definition calculate_visibility_circle (lat lon radius_km : R)
  : list R * list R :=
  let pts := map (circle_point lat lon radius_km) angles in
  (map fst pts, map snd pts).

(** [haversine_distance lat1 lon1 lat2 lon2], in km. *)
Definition haversine_distance (lat1 lon1 lat2 lon2 : R) : R :=
  let lat1 := radians lat1 in
  let lon1 := radians lon1 in
  let lat2 := radians lat2 in
  let lon2 := radians lon2 in
  let dlat := lat2 - lat1 in
  let dlon := lon2 - lon1 in
  let a := sin (dlat / 2) ^ 2 + cos lat1 * cos lat2 * sin (dlon / 2) ^ 2 in
  6371 * 2 * asin (sqrt a).

(** [straight_line_distance lat1 lon1 alt1 lat2 lon2 alt2], in km
    ([alt2] defaults to [0] in the script). *)
Definition straight_line_distance (lat1 lon1 alt1 lat2 lon2 alt2 : R) : R :=
  let lat1 := radians lat1 in
  let lon1 := radians lon1 in
  let lat2 := radians lat2 in
  let lon2 := radians lon2 in
  let R0 := 6371 in
  let x1 := (R0 + alt1) * cos lat1 * cos lon1 in
  let y1 := (R0 + alt1) * cos lat1 * sin lon1 in
  let z1 := (R0 + alt1) * sin lat1 in
  let x2 := (R0 + alt2) * cos lat2 * cos lon2 in
  let y2 := (R0 + alt2) * cos lat2 * sin lon2 in
  let z2 := (R0 + alt2) * sin lat2 in
  sqrt ((x2 - x1) ^ 2 + (y2 - y1) ^ 2 + (z2 - z1) ^ 2).

End Geodesy.

(** ** Instants, durations, exceptions and the orbital propagator *)

(** [datetime.timedelta(minutes=m, seconds=s)], in microseconds. *)
Definition timedelta (minutes seconds : Z) : Z :=
  ((minutes * 60 + seconds) * 1000000)%Z.

(** The outcome of a call that may raise. *)
Inductive result (E A : Type) : Type :=
| Ok (a : A)
| Raised (e : E).
Arguments Ok {E A} a.
Arguments Raised {E A} e.

Module Ephem.

(** What the scripts read from the [ephem] body after [compute]:
    [sublong] and [sublat] in radians, [elevation] in metres. *)
Record Body : Type := mkBody { sublong : R; sublat : R; elevation : R }.

(** [iss.compute(t)]: the body's attributes at instant [t], or the
    exception the propagator raises. *)
Definition propagator (E : Type) : Type := Z -> result E Body.

(** [float(iss.sublong) * 180.0 / ephem.pi] and the like. *)
Definition to_degrees (x : R) : R := (x * 180 / PI)%R.

End Ephem.

(** ** Key names of the keyboard events *)

Module Keys.
Local Open Scope string_scope.

Definition lower_ascii (c : ascii) : ascii :=
  let n := nat_of_ascii c in
  if ((65 <=? n) && (n <=? 90))%nat then ascii_of_nat (n + 32) else c.

(** [str.lower] on the ASCII key names of the backend. *)
Fixpoint lower (s : string) : string :=
  match s with
  | EmptyString => EmptyString
  | String c s' => String (lower_ascii c) (lower s')
  end.

(** [needle in s] on strings. *)
Fixpoint contains (needle s : string) : bool :=
  match s with
  | EmptyString => prefix needle EmptyString
  | String _ s' => prefix needle s || contains needle s'
  end.

End Keys.

(** ** ISS_project1_20250523_1256.py *)

Module Tracker1256.
Import Geodesy Ephem Keys.

(** Configuration block. *)
Definition time_step : Z := timedelta 0 30.
Definition long_time_step : Z := timedelta 10 0.
Definition target_lat : R := (7398 / 1000)%R.
Definition target_lon : R := (27083 / 1000)%R.
Definition ISS_VIEW_RANGE : R := 2000%R.
Definition isspath_dt_before : Z := timedelta 30 0.
Definition isspath_dt_after : Z := timedelta 30 0.
Definition isspath_step : Z := timedelta 0 60.

(** What the title shows. *)
Record Title : Type := mkTitle {
  title_time : Z; title_lat : R; title_lon : R; title_alt : R;
  title_ground : R; title_direct : R }.

(** The data held by the artists of the figure. *)
Record Figure : Type := mkFigure {
  iss_marker : list R * list R;
  orbit_path : list R * list R;
  visibility_circle : list R * list R;
  title : option Title }.

(** The globals [on_key] works on. *)
Record State : Type := mkState { current_time : Z; figure : Figure }.

(** First loop of [calculate_orbit_path]:
    [while current <= end_time: times.append(current); current += step]. *)
Fixpoint times_loop (fuel : nat) (current end_time step : Z) (times : list Z)
  : option (list Z) :=
  match fuel with
  | O => None
  | S fuel' =>
      if (current <=? end_time)%Z
      then times_loop fuel' (current + step)%Z end_time step (times ++ [current])
      else Some times
  end.

Section Propagation.
Variable exn : Type.
Variable compute : propagator exn.

(** Second loop of [calculate_orbit_path]: [for t in times], compute and
    append; an exception of [compute] leaves the loop and the function. *)
Fixpoint samples_loop (times : list Z) (lons lats : list R)
  : result exn (list R * list R) :=
  match times with
  | [] => Ok (lons, lats)
  | t :: times' =>
      match compute t with
      | Raised e => Raised e
      | Ok b =>
          samples_loop times' (lons ++ [to_degrees (sublong b)])
                              (lats ++ [to_degrees (sublat b)])
      end
  end.

Definition calculate_orbit_path (fuel : nat)
    (center_time dt_before dt_after step : Z)
  : option (result exn (list R * list R)) :=
  let start_time := (center_time - dt_before)%Z in
  let end_time := (center_time + dt_after)%Z in
  match times_loop fuel start_time end_time step [] with
  | None => None
  | Some times => Some (samples_loop times [] [])
  end.

(** [update_position()]: the whole body runs under [try]; on an exception
    the artists keep what they held when it was raised.  The day/night
    patches are left to the renderer. *)
Definition update_position (fuel : nat) (current_time : Z) (fig : Figure)
  : option Figure :=
  match compute current_time with
  | Raised _ => Some fig
  | Ok b =>
      let lon := to_degrees (sublong b) in
      let lat := to_degrees (sublat b) in
      let alt_km := (elevation b / 1000)%R in
      let fig1 := mkFigure ([lon], [lat]) (orbit_path fig)
                           (visibility_circle fig) (title fig) in
      match calculate_orbit_path fuel current_time isspath_dt_before
                                 isspath_dt_after isspath_step with
      | None => None
      | Some (Raised _) => Some fig1
      | Some (Ok path) =>
          let circle := calculate_visibility_circle lat lon ISS_VIEW_RANGE in
          let ground_dist := haversine_distance lat lon target_lat target_lon in
          let direct_dist :=
            straight_line_distance lat lon alt_km target_lat target_lon 0 in
          Some (mkFigure ([lon], [lat]) path circle
                  (Some (mkTitle current_time lat lon alt_km
                                 ground_dist direct_dist)))
      end
  end.

(** The branches of [on_key] on [current_time]. *)
Definition key_time (key : string) (current_time : Z) : Z :=
  let k := lower key in
  if (k =? "right")%string || (k =? "shift+right")%string then
    if contains "shift" k then (current_time + long_time_step)%Z
    else (current_time + time_step)%Z
  else if (k =? "left")%string || (k =? "shift+left")%string then
    if contains "shift" k then (current_time - long_time_step)%Z
    else (current_time - time_step)%Z
  else current_time.

(** [on_key(event)]: move [current_time], then [update_position()]. *)
Definition on_key (fuel : nat) (key : string) (st : State) : option State :=
  let t := key_time key (current_time st) in
  match update_position fuel t (figure st) with
  | None => None
  | Some fig => Some (mkState t fig)
  end.

End Propagation.

(** The sampling policy of the specification, for comparison: every
    instant is propagated on its own and a failing one is left out. *)
Fixpoint sample_path_skip {exn : Type} (compute : propagator exn)
    (times : list Z) : list R * list R :=
  match times with
  | [] => ([], [])
  | t :: times' =>
      let rest := sample_path_skip compute times' in
      match compute t with
      | Raised _ => rest
      | Ok b => (to_degrees (sublong b) :: fst rest,
                 to_degrees (sublat b) :: snd rest)
      end
  end.

End Tracker1256.

(** ** ISS_project1_20250522_0036.py *)

Module Tracker0036.
Import Geodesy Ephem.

Definition ISS_VIEW_RANGE : R := 2000%R.
Definition time_step : Z := timedelta 0 10.

Record Figure : Type := mkFigure {
  iss_marker : list R * list R;
  visibility_circle : list R * list R;
  title : option (Z * R * R) }.

Record State : Type := mkState { current_time : Z; figure : Figure }.

Section Propagation.
Variable exn : Type.
Variable compute : propagator exn.

Definition update_position (current_time : Z) (fig : Figure) : Figure :=
  match compute current_time with
  | Raised _ => fig
  | Ok b =>
      let lon := to_degrees (sublong b) in
      let lat := to_degrees (sublat b) in
      mkFigure ([lon], [lat])
               (calculate_visibility_circle lat lon ISS_VIEW_RANGE)
               (Some (current_time, lat, lon))
  end.

Definition on_key (key : string) (st : State) : State :=
  let t :=
    if (key =? "right")%string then (current_time st + time_step)%Z
    else if (key =? "left")%string then (current_time st - time_step)%Z
    else current_time st in
  mkState t (update_position t (figure st)).

End Propagation.
End Tracker0036.

(** ** ISS project 1.py: the live trail *)

Module Project1.

Record State : Type := mkState {
  positions : list (R * R);
  trail : list R * list R;
  iss_dot : list R * list R }.

(** The block [# Update ISS trail] of [update]: append, and drop the
    oldest entry when more than 200 are held. *)
Definition update_trail (lon lat : R) (positions : list (R * R))
  : list (R * R) :=
  let positions := positions ++ [(lon, lat)] in
  if (200 <? List.length positions)%nat then tl positions else positions.

(** [update(frame)] on the trail, for the answer [result] of
    [get_iss_position()] ([None] when the request failed). *)
Definition update (result : option (R * R * Z)) (st : State) : State :=
  match result with
  | None => st
  | Some (lat, lon, timestamp) =>
      let positions := update_trail lon lat (positions st) in
      mkState positions (map fst positions, map snd positions) ([lon], [lat])
  end.

(** The start of the script: [positions = []], then the block
    [# Initial ISS position]. *)
Definition initial_state (initial : option (R * R * Z)) : State :=
  match initial with
  | None => mkState [] ([], []) ([], [])
  | Some (lat, lon, timestamp) => mkState [(lon, lat)] ([], []) ([lon], [lat])
  end.

(** The animation: one [update] per frame. *)
Definition animate (initial : option (R * R * Z))
    (frames : list (option (R * R * Z))) : State :=
  fold_left (fun st r => update r st) frames (initial_state initial).

(** The points appended to [positions], in order. *)
Fixpoint pushed (answers : list (option (R * R * Z))) : list (R * R) :=
  match answers with
  | [] => []
  | None :: rest => pushed rest
  | Some (lat, lon, _) :: rest => (lon, lat) :: pushed rest
  end.

End Project1.

(** ** ISS project. Py 3.py: the trail of the stepped tracker *)

Module Py3.
Import Ephem.

Definition time_step : Z := timedelta 0 10.

Record State : Type := mkState {
  current_time : Z;
  past_lons : list R;
  past_lats : list R;
  marker : option (R * R);
  trail : list R * list R }.

(** The block [# Store history (limit to 100 points for performance)]. *)
Definition store_history (lon lat : R) (past : list R * list R)
  : list R * list R :=
  let past_lons := fst past ++ [lon] in
  let past_lats := snd past ++ [lat] in
  if (100 <? List.length past_lons)%nat then (tl past_lons, tl past_lats)
  else (past_lons, past_lats).

Section Propagation.
Variable exn : Type.
Variable compute : propagator exn.

(** [update_position()]; the script has no [try] here, an exception of
    [compute] escapes before anything is stored. *)
Definition update_position (st : State) : result exn State :=
  match compute (current_time st) with
  | Raised e => Raised e
  | Ok b =>
      let lon := to_degrees (sublong b) in
      let lat := to_degrees (sublat b) in
      let past := store_history lon lat (past_lons st, past_lats st) in
      Ok (mkState (current_time st) (fst past) (snd past)
                  (Some (lon, lat)) past)
  end.

(** [on_key(event)]: the new state, and the exception that escaped. *)
Definition on_key (key : string) (st : State) : State * option exn :=
  let moved t :=
    let st' := mkState t (past_lons st) (past_lats st) (marker st) (trail st) in
    match update_position st' with
    | Ok st'' => (st'', None)
    | Raised e => (st', Some e)
    end in
  if (key =? "right")%string then moved (current_time st + time_step)%Z
  else if (key =? "left")%string then moved (current_time st - time_step)%Z
  else (st, None).

End Propagation.

(** The history after storing the points [pts], oldest first. *)
Definition store_all (pts : list (R * R)) (past : list R * list R)
  : list R * list R :=
  fold_left (fun h p => store_history (fst p) (snd p) h) pts past.

End Py3.

(** ** Fetching the element set ([fetch_latest_tle], both trackers) *)

Module Tle.
Local Open Scope string_scope.

(** The white space [str.strip()] removes, among the code points below
    256: tab to carriage return, the four separators 28 to 31, the space,
    NEL (133) and the no-break space (160). *)
Definition is_space (c : ascii) : bool :=
  let n := nat_of_ascii c in
  ((9 <=? n) && (n <=? 13) || (28 <=? n) && (n <=? 32) ||
   (n =? 133) || (n =? 160))%nat.

Fixpoint lstrip (s : string) : string :=
  match s with
  | EmptyString => EmptyString
  | String c s' => if is_space c then lstrip s' else s
  end.

Fixpoint rstrip (s : string) : string :=
  match s with
  | EmptyString => EmptyString
  | String c s' =>
      match rstrip s' with
      | EmptyString => if is_space c then EmptyString else String c EmptyString
      | r => String c r
      end
  end.

(** [s.strip()]. *)
Definition strip (s : string) : string := rstrip (lstrip s).

Definition newline : ascii := "010"%char.

(** The one-character string of a line feed. *)
Definition NL : string := String newline EmptyString.

(** [s.split('\n')]: one more entry than there are line feeds. *)
Fixpoint split_lines (s : string) : list string :=
  match s with
  | EmptyString => [EmptyString]
  | String c s' =>
      if Ascii.eqb c newline then EmptyString :: split_lines s'
      else match split_lines s' with
           | l :: ls => String c l :: ls
           | [] => [String c EmptyString]
           end
  end.

(** The backup element set of the [except] branch. *)
Definition fallback : string * string * string :=
  ("ISS (ZARYA)",
   "1 25544U 98067A   25140.37106448  .00008533  00000+0  15939-3 0  9993",
   "2 25544  51.6374  84.8753 0002567 126.2244  18.1297 15.49625942510847").

(** [fetch_latest_tle()], for the outcome [response] of the request
    ([requests.get] and [raise_for_status]): the text of the answer, or the
    exception raised.  Indexing a missing line raises [IndexError], which
    the same [except Exception] catches. *)
Definition fetch_latest_tle {exn : Type} (response : result exn string)
  : string * string * string :=
  match response with
  | Raised _ => fallback
  | Ok text =>
      match split_lines (strip text) with
      | l0 :: l1 :: l2 :: _ => (strip l0, strip l1, strip l2)
      | _ => fallback
      end
  end.

Fixpoint has_newline (s : string) : bool :=
  match s with
  | EmptyString => false
  | String c s' => Ascii.eqb c newline || has_newline s'
  end.

Fixpoint count_newlines (s : string) : nat :=
  match s with
  | EmptyString => 0
  | String c s' => (if Ascii.eqb c newline then 1 else 0) + count_newlines s'
  end.

(** A string [strip] leaves alone, and of one line. *)
Definition trimmed (s : string) : Prop :=
  strip s = s /\ has_newline s = false.

End Tle.

(** ** ISS project .Py 2 updated.py: the clock in the title *)

Module Py2.

(** [time_point], and the second the title shows: [strftime] with
    ['%Y-%m-%d %H:%M:%S'] drops the microseconds. *)
Record State : Type := mkState { time_point : Z; title : Z }.



End Py2.

(** ** Runs of key presses *)



(** [on_key] of [Py3] for each key of [keys] in turn; an exception that
    escapes a callback leaves the globals as they are at that point. *)
Definition press_keys_py3 {exn : Type} (compute : Ephem.propagator exn)
    (keys : list string) (st : Py3.State) : Py3.State :=
  fold_left (fun s key => fst (Py3.on_key exn compute key s)) keys st.

(** The two histories of [Py3] have one length, at most 100. *)
Definition history_ok (st : Py3.State) : Prop :=
  List.length (Py3.past_lons st) = List.length (Py3.past_lats st) /\
  (List.length (Py3.past_lons st) <= 100)%nat.

(** ** Auxiliary definitions of the statements *)

(** The footprint of the specification, for comparison: [k] bearings evenly
    spaced over the half-open interval from [0] to [2 * PI]. *)
Definition half_open_bearings (k : nat) : list R :=
  map (fun i => (INR i * (2 * PI / INR k))%R) (seq 0 k).

(** The [i]-th bearing of [angles], in closed form. *)
Definition bearing (i : nat) : R := (INR i * (2 * PI / 99))%R.

(** The haversine term [a] of [haversine_distance], on radians. *)
Definition hav (p1 l1 p2 l2 : R) : R :=
  (sin ((p2 - p1) / 2) ^ 2 + cos p1 * cos p2 * sin ((l2 - l1) / 2) ^ 2)%R.


(** Append, then drop the head when more than [cap] entries are held: the
    shape shared by [Project1.update_trail] and [Py3.store_history]. *)
Definition append_capped {A : Type} (cap : nat) (l : list A) (x : A) : list A :=
  let l' := l ++ [x] in
  if (cap <? List.length l')%nat then tl l' else l'.

(** The instants [start_time, start_time + step, ...] up to [end_time], for
    a positive [step]: how many there are, and the list. *)
Definition window_count (start_time end_time step : Z) : nat :=
  Z.to_nat ((end_time - start_time) / step + 1).

Definition window (start_time end_time step : Z) : list Z :=
  map (fun i => (start_time + Z.of_nat i * step)%Z)
      (seq 0 (window_count start_time end_time step)).

(** Two propagators for concrete runs: one that always answers the same
    body, one that raises at the instant [bad] only. *)
Definition steady : Ephem.propagator unit :=
  fun _ => Ok (Ephem.mkBody 0 0 0).

Definition flaky (bad : Z) : Ephem.propagator unit :=
  fun t => if (t =? bad)%Z then Raised tt else Ok (Ephem.mkBody 0 0 0).

(** Names the sines and cosines of the four angles and keeps only
    [sin^2 + cos^2 = 1] about them. *)
Ltac abstract_trig p1 l1 p2 l2 :=
  let H1 := fresh "H" in let H2 := fresh "H" in
  let H3 := fresh "H" in let H4 := fresh "H" in
  assert (H1 := sin2_cos2 p1); assert (H2 := sin2_cos2 p2);
  assert (H3 := sin2_cos2 l1); assert (H4 := sin2_cos2 l2);
  unfold Rsqr in H1, H2, H3, H4;
  generalize dependent (sin p1); generalize dependent (cos p1);
  generalize dependent (sin p2); generalize dependent (cos p2);
  generalize dependent (sin l1); generalize dependent (cos l1);
  generalize dependent (sin l2); generalize dependent (cos l2);
  intros cl2 sl2 H4 cl1 sl1 H3 c2 s2 H2 c1 s1 H1.

(** * Properties *)

Import NumPy Geodesy.
Open Scope R_scope.

(** ** Degrees and radians *)








(** ** The haversine term and the chord *)

Lemma sin_half_sq x : sin (x / 2) ^ 2 = (1 - cos x) / 2.
Proof.
  replace (cos x) with (cos (2 * (x / 2))) by (f_equal; field).
  rewrite cos_2a_sin. field.
Qed.

(** The squared chord between two points of the unit sphere is four times
    the haversine term. *)
Lemma chord_sq p1 l1 p2 l2 :
  (cos p2 * cos l2 - cos p1 * cos l1) ^ 2 +
  (cos p2 * sin l2 - cos p1 * sin l1) ^ 2 + (sin p2 - sin p1) ^ 2 =
  4 * hav p1 l1 p2 l2.
Proof.
  unfold hav. rewrite !sin_half_sq, !cos_minus.
  abstract_trig p1 l1 p2 l2.
  transitivity (c2 * c2 * (cl2 * cl2 + sl2 * sl2) +
                c1 * c1 * (cl1 * cl1 + sl1 * sl1) + s2 * s2 + s1 * s1 -
                2 * c1 * c2 * (cl1 * cl2 + sl1 * sl2) - 2 * s1 * s2); [ring|].
  replace (cl2 * cl2) with (1 - sl2 * sl2) by lra.
  replace (cl1 * cl1) with (1 - sl1 * sl1) by lra.
  replace (c2 * c2) with (1 - s2 * s2) by lra.
  replace (c1 * c1) with (1 - s1 * s1) by lra.
  field.
Qed.

(** The same with the antipode of the first point: what is left to 1. *)
Lemma antichord_sq p1 l1 p2 l2 :
  (cos p2 * cos l2 + cos p1 * cos l1) ^ 2 +
  (cos p2 * sin l2 + cos p1 * sin l1) ^ 2 + (sin p2 + sin p1) ^ 2 =
  4 * (1 - hav p1 l1 p2 l2).
Proof.
  unfold hav. rewrite !sin_half_sq, !cos_minus.
  abstract_trig p1 l1 p2 l2.
  transitivity (c2 * c2 * (cl2 * cl2 + sl2 * sl2) +
                c1 * c1 * (cl1 * cl1 + sl1 * sl1) + s2 * s2 + s1 * s1 +
                2 * c1 * c2 * (cl1 * cl2 + sl1 * sl2) + 2 * s1 * s2); [ring|].
  replace (cl2 * cl2) with (1 - sl2 * sl2) by lra.
  replace (cl1 * cl1) with (1 - sl1 * sl1) by lra.
  replace (c2 * c2) with (1 - s2 * s2) by lra.
  replace (c1 * c1) with (1 - s1 * s1) by lra.
  field.
Qed.

Lemma sum_sq_nonneg a b c : 0 <= a ^ 2 + b ^ 2 + c ^ 2.
Proof.
  assert (Ha := pow2_ge_0 a). assert (Hb := pow2_ge_0 b).
  assert (Hc := pow2_ge_0 c). lra.
Qed.

Lemma hav_bounds p1 l1 p2 l2 : 0 <= hav p1 l1 p2 l2 <= 1.
Proof.
  assert (H := chord_sq p1 l1 p2 l2). assert (H' := antichord_sq p1 l1 p2 l2).
  split.
  - assert (H0 := sum_sq_nonneg (cos p2 * cos l2 - cos p1 * cos l1)
                    (cos p2 * sin l2 - cos p1 * sin l1) (sin p2 - sin p1)).
    lra.
  - assert (H0 := sum_sq_nonneg (cos p2 * cos l2 + cos p1 * cos l1)
                    (cos p2 * sin l2 + cos p1 * sin l1) (sin p2 + sin p1)).
    lra.
Qed.

Lemma sqrt_hav_bounds p1 l1 p2 l2 : 0 <= sqrt (hav p1 l1 p2 l2) <= 1.
Proof.
  destruct (hav_bounds p1 l1 p2 l2) as [H0 H1]. split.
  - apply sqrt_pos.
  - rewrite <- sqrt_1. apply sqrt_le_1; lra.
Qed.

Lemma haversine_unfold lat1 lon1 lat2 lon2 :
  haversine_distance lat1 lon1 lat2 lon2 =
  6371 * 2 * asin (sqrt (hav (radians lat1) (radians lon1)
                              (radians lat2) (radians lon2))).
Proof. reflexivity. Qed.

(** C5: with both altitudes 0 the straight-line distance is the chord of
    the great-circle distance [d], that is [2 * 6371 * sin (d / (2 * 6371))]
    for [d] the haversine distance of the same two points. *)
Theorem straight_line_is_chord lat1 lon1 lat2 lon2 :
  straight_line_distance lat1 lon1 0 lat2 lon2 0 =
  2 * 6371 * sin (haversine_distance lat1 lon1 lat2 lon2 / (2 * 6371)).
Proof.
  rewrite haversine_unfold.
  set (p1 := radians lat1). set (l1 := radians lon1).
  set (p2 := radians lat2). set (l2 := radians lon2).
  replace (6371 * 2 * asin (sqrt (hav p1 l1 p2 l2)) / (2 * 6371))
    with (asin (sqrt (hav p1 l1 p2 l2))) by field.
  destruct (sqrt_hav_bounds p1 l1 p2 l2) as [H0 H1].
  rewrite sin_asin by lra.
  unfold straight_line_distance. fold p1 l1 p2 l2. cbv zeta.
  replace ((((6371 + 0) * cos p2 * cos l2 - (6371 + 0) * cos p1 * cos l1) ^ 2 +
            ((6371 + 0) * cos p2 * sin l2 - (6371 + 0) * cos p1 * sin l1) ^ 2 +
            ((6371 + 0) * sin p2 - (6371 + 0) * sin p1) ^ 2))
    with ((2 * 6371) ^ 2 * hav p1 l1 p2 l2).
  - rewrite sqrt_mult_alt by nra.
    rewrite sqrt_pow2 by lra. reflexivity.
  - assert (Hc := chord_sq p1 l1 p2 l2).
    transitivity (6371 ^ 2 * (4 * hav p1 l1 p2 l2)); [ring|].
    rewrite <- Hc. ring.
Qed.

(** ** When the haversine distance vanishes *)











(** ** The bearings of the visibility circle *)

Lemma INR_99 : INR 99 = 99.
Proof. rewrite INR_IZR_INZ. reflexivity. Qed.

Lemma INR_100 : INR 100 = 100.
Proof. rewrite INR_IZR_INZ. reflexivity. Qed.

Lemma linspace_closed_form a b m :
  linspace a b (S (S m)) =
  map (fun i => INR i * ((b - a) / INR (S m)) + a) (seq 0 (S (S m))).
Proof.
  unfold linspace.
  replace (S (S m) - 1)%nat with (S m) by lia.
  replace (1 <? S (S m))%nat with true by (symmetry; apply Nat.ltb_lt; lia).
  unfold set_last.
  rewrite (seq_S (S m) 0), map_app. cbn [map].
  rewrite removelast_last. f_equal. f_equal.
  replace (0 + S m)%nat with (S m) by lia.
  field. apply not_0_INR. lia.
Qed.

Lemma angles_closed_form : angles = map bearing (seq 0 100).
Proof.
  unfold angles. rewrite linspace_closed_form.
  apply map_ext. intros i. unfold bearing. rewrite INR_99. field.
Qed.

Lemma last_map_seq {A : Type} (f : nat -> A) n d :
  last (map f (seq 0 (S n))) d = f n.
Proof. rewrite seq_S, map_app. cbn [map]. apply last_last. Qed.


Lemma bearing_first : bearing 0 = 0.
Proof. unfold bearing. simpl. ring. Qed.

Lemma bearing_last : bearing 99 = 2 * PI.
Proof. unfold bearing. rewrite INR_99. field. Qed.

Lemma angles_first : hd 0 angles = 0.
Proof. rewrite angles_closed_form. apply bearing_first. Qed.

Lemma angles_last : last angles 0 = 2 * PI.
Proof. rewrite angles_closed_form, (last_map_seq _ 99). apply bearing_last. Qed.

Lemma circle_lists_by_bearing lat lon r :
  calculate_visibility_circle lat lon r =
  (map (fun i => fst (circle_point lat lon r (bearing i))) (seq 0 100),
   map (fun i => snd (circle_point lat lon r (bearing i))) (seq 0 100)).
Proof.
  unfold calculate_visibility_circle. rewrite angles_closed_form.
  rewrite !map_map. reflexivity.
Qed.

Lemma visibility_circle_lengths lat lon r :
  List.length (fst (calculate_visibility_circle lat lon r)) = 100%nat /\
  List.length (snd (calculate_visibility_circle lat lon r)) = 100%nat.
Proof.
  rewrite circle_lists_by_bearing. cbn [fst snd].
  rewrite !length_map, !length_seq. split; reflexivity.
Qed.

(** A point of the circle depends on the bearing through its sine and
    cosine only. *)
Lemma circle_point_ext lat lon r a b :
  sin a = sin b -> cos a = cos b ->
  circle_point lat lon r a = circle_point lat lon r b.
Proof. intros Hs Hc. unfold circle_point. rewrite Hs, Hc. reflexivity. Qed.

Lemma circle_point_full_turn lat lon r :
  circle_point lat lon r (2 * PI) = circle_point lat lon r 0.
Proof.
  apply circle_point_ext.
  - rewrite sin_2PI, sin_0. reflexivity.
  - rewrite cos_2PI, cos_0. reflexivity.
Qed.


(** C1, as amended: the circle has exactly 100 points, computed at the 100
    bearings [i * (2 * PI / 99)], [i = 0 .. 99]: evenly spaced over the
    closed interval from 0 to [2 * PI], both ends included. *)
Theorem visibility_circle_bearings lat lon r :
  angles = map bearing (seq 0 100) /\
  hd 0 angles = 0 /\ last angles 0 = 2 * PI /\
  combine (fst (calculate_visibility_circle lat lon r))
          (snd (calculate_visibility_circle lat lon r)) =
    map (fun i => circle_point lat lon r (bearing i)) (seq 0 100) /\
  List.length (fst (calculate_visibility_circle lat lon r)) = 100%nat /\
  List.length (snd (calculate_visibility_circle lat lon r)) = 100%nat.
Proof.
  split; [apply angles_closed_form|].
  split; [apply angles_first|].
  split; [apply angles_last|].
  split; [|apply visibility_circle_lengths].
  rewrite circle_lists_by_bearing. cbn [fst snd].
  generalize (seq 0 100). intros l. induction l as [|i l IH]; [reflexivity|].
  cbn [map combine]. rewrite IH. reflexivity.
Qed.

(** C1 as stated fails: the last bearing is [2 * PI] itself, outside the
    half-open interval, the bearings are not the 100 multiples of
    [2 * PI / 100], and the point at the last bearing is the point at the
    first one. *)
Lemma bearings_not_half_open :
  last angles 0 = 2 * PI /\
  ~ Forall (fun a => 0 <= a < 2 * PI) angles /\
  angles <> half_open_bearings 100 /\
  circle_point 0 0 2000 (last angles 0) = circle_point 0 0 2000 (hd 0 angles).
Proof.
  assert (L := angles_last).
  split; [exact L|]. split; [|split].
  - intros H. rewrite Forall_forall in H.
    assert (Hin : In (last angles 0) angles).
    { rewrite angles_closed_form. rewrite (last_map_seq _ 99).
      apply in_map. apply in_seq. lia. }
    apply H in Hin. lra.
  - intros E. rewrite E in L. unfold half_open_bearings in L.
    rewrite (last_map_seq _ 99) in L. rewrite INR_99, INR_100 in L.
    assert (Hp := PI_RGT_0). lra.
  - rewrite angles_last, angles_first. apply circle_point_full_turn.
Qed.

(** ** Degenerate radii *)











(** ** The range of the longitudes *)






Close Scope R_scope.

(** ** The trail: a bounded first-in first-out history *)

Section Capped.
Context {A : Type}.
Variable cap : nat.

Lemma append_capped_skipn (l : list A) x :
  List.length l <= cap ->
  append_capped cap l x = skipn (List.length (l ++ [x]) - cap) (l ++ [x]).
Proof.
  intros Hl. unfold append_capped. rewrite length_app. cbn [List.length].
  destruct (Nat.ltb_spec cap (List.length l + 1)) as [H|H].
  - replace (List.length l + 1 - cap) with 1 by lia.
    destruct (l ++ [x]); reflexivity.
  - replace (List.length l + 1 - cap) with 0 by lia. reflexivity.
Qed.

(** From a history within the capacity, appending [xs] one by one leaves
    the last [cap] entries of the whole sequence. *)
Lemma fold_append_capped (xs l : list A) :
  List.length l <= cap ->
  fold_left (append_capped cap) xs l =
  skipn (List.length (l ++ xs) - cap) (l ++ xs).
Proof.
  revert l. induction xs as [|x xs IH]; intros l Hl.
  - rewrite app_nil_r. replace (List.length l - cap) with 0 by lia.
    reflexivity.
  - cbn [fold_left]. rewrite append_capped_skipn by exact Hl.
    set (k := List.length (l ++ [x]) - cap).
    assert (Hk : k <= List.length (l ++ [x])) by (unfold k; lia).
    assert (E : skipn k (l ++ [x]) ++ xs = skipn k (l ++ x :: xs)).
    { replace (l ++ x :: xs) with ((l ++ [x]) ++ xs)
        by (rewrite <- app_assoc; reflexivity).
      rewrite (skipn_app k (l ++ [x]) xs).
      replace (k - List.length (l ++ [x])) with 0 by lia.
      reflexivity. }
    rewrite IH.
    + rewrite E, skipn_skipn. f_equal.
      rewrite length_skipn. unfold k.
      rewrite !length_app. cbn [List.length]. lia.
    + rewrite length_skipn. unfold k. rewrite length_app. cbn [List.length].
      lia.
Qed.

End Capped.

Lemma update_trail_capped lon lat ps :
  Project1.update_trail lon lat ps = append_capped 200 ps (lon, lat).
Proof. reflexivity. Qed.

Lemma positions_fold st frames :
  Project1.positions (fold_left (fun st r => Project1.update r st) frames st) =
  fold_left (append_capped 200) (Project1.pushed frames) (Project1.positions st).
Proof.
  revert st. induction frames as [|[[[lat lon] ts]|] frames IH]; intros st.
  - reflexivity.
  - cbn [fold_left Project1.pushed]. rewrite IH. reflexivity.
  - cbn [fold_left Project1.pushed]. apply IH.
Qed.

Lemma positions_animate initial frames :
  Project1.positions (Project1.animate initial frames) =
  skipn (List.length (Project1.pushed (initial :: frames)) - 200)
        (Project1.pushed (initial :: frames)).
Proof.
  unfold Project1.animate. rewrite positions_fold.
  rewrite fold_append_capped.
  - destruct initial as [[[lat lon] ts]|]; reflexivity.
  - destruct initial as [[[lat lon] ts]|]; cbn; lia.
Qed.

(** The two histories of [Py3] move in step. *)
Lemma store_all_capped pts ls :
  List.length (fst ls) = List.length (snd ls) ->
  Py3.store_all pts ls =
  (fold_left (append_capped 100) (map fst pts) (fst ls),
   fold_left (append_capped 100) (map snd pts) (snd ls)).
Proof.
  unfold Py3.store_all. revert ls.
  induction pts as [|[lon lat] pts IH]; intros [lons lats] Hlen.
  - reflexivity.
  - cbn [fold_left map fst snd] in *. rewrite IH.
    + unfold Py3.store_history, append_capped. cbn [fst snd].
      rewrite !length_app, Hlen.
      destruct (100 <? _); reflexivity.
    + unfold Py3.store_history. cbn [fst snd].
      destruct (100 <? _); cbn [fst snd].
      * destruct lons, lats; cbn in *; try discriminate; try reflexivity.
        injection Hlen as Hlen. rewrite !length_app, Hlen. reflexivity.
      * rewrite !length_app, Hlen. reflexivity.
Qed.

(** A successful [update_position] of [Py3] stores the computed point. *)
Lemma update_position_stores (exn : Type) (compute : Ephem.propagator exn)
    st b :
  compute (Py3.current_time st) = Ok b ->
  exists st',
    Py3.update_position exn compute st = Ok st' /\
    (Py3.past_lons st', Py3.past_lats st') =
    Py3.store_history (Ephem.to_degrees (Ephem.sublong b))
                      (Ephem.to_degrees (Ephem.sublat b))
                      (Py3.past_lons st, Py3.past_lats st).
Proof.
  intros H. unfold Py3.update_position. rewrite H.
  eexists. split; [reflexivity|].
  cbn [Py3.past_lons Py3.past_lats]. now destruct (Py3.store_history _ _ _).
Qed.

(** C2: the trail never holds more than its capacity (200 positions for
    the live trail, 100 for the stepped tracker), and after [N + m] pushes
    ([m > 0]) into an empty trail it holds exactly the last [N] pushed
    points in push order. *)
Theorem trail_keeps_last_points :
  (forall initial frames,
     List.length (Project1.positions (Project1.animate initial frames)) <= 200 /\
     forall m, 0 < m ->
       List.length (Project1.pushed (initial :: frames)) = 200 + m ->
       Project1.positions (Project1.animate initial frames) =
       skipn m (Project1.pushed (initial :: frames))) /\
  (forall pts,
     List.length (fst (Py3.store_all pts ([], []))) <= 100 /\
     List.length (snd (Py3.store_all pts ([], []))) <= 100 /\
     forall m, 0 < m -> List.length pts = 100 + m ->
       Py3.store_all pts ([], []) =
       (skipn m (map fst pts), skipn m (map snd pts))).
Proof.
  split.
  - intros initial frames. rewrite positions_animate. split.
    + rewrite length_skipn. lia.
    + intros m _ Hm. rewrite Hm. f_equal. lia.
  - intros pts. rewrite store_all_capped by reflexivity. cbn [fst snd].
    rewrite !fold_append_capped by (cbn; lia). cbn [app].
    rewrite !length_skipn, !length_map.
    split; [lia|]. split; [lia|].
    intros m _ Hm. rewrite Hm. do 2 f_equal; lia.
Qed.

Lemma trail_keeps_last_points_witness :
  Project1.positions
    (Project1.animate (Some (0, 0, 0%Z)) (repeat (Some (1, 2, 3%Z)) 200))%R =
  skipn 1 (Project1.pushed
             (Some (0, 0, 0%Z) :: repeat (Some (1, 2, 3%Z)) 200))%R.
Proof.
  apply (proj2 (proj1 trail_keeps_last_points _ _) 1).
  - lia.
  - reflexivity.
Defined.

(** ** The instants of the orbit path *)

Import Ephem Keys Tracker1256.
Open Scope Z_scope.

Lemma window_count_past start_time end_time step :
  0 < step -> end_time < start_time ->
  window_count start_time end_time step = 0%nat.
Proof.
  intros Hs Hlt. unfold window_count.
  assert ((end_time - start_time) / step < 0)
    by (apply Z.div_lt_upper_bound; lia).
  lia.
Qed.

Lemma window_count_step start_time end_time step :
  0 < step -> start_time <= end_time ->
  window_count start_time end_time step =
  S (window_count (start_time + step) end_time step).
Proof.
  intros Hs Hle. unfold window_count.
  replace (end_time - start_time)
    with ((end_time - (start_time + step)) + 1 * step) by ring.
  rewrite Z.div_add by lia.
  assert (-1 <= (end_time - (start_time + step)) / step)
    by (apply Z.div_le_lower_bound; lia).
  rewrite <- Z2Nat.inj_succ by lia. f_equal; lia.
Qed.

Lemma window_past start_time end_time step :
  0 < step -> end_time < start_time -> window start_time end_time step = [].
Proof. intros. unfold window. now rewrite window_count_past. Qed.

Lemma window_step start_time end_time step :
  0 < step -> start_time <= end_time ->
  window start_time end_time step =
  start_time :: window (start_time + step) end_time step.
Proof.
  intros Hs Hle. unfold window. rewrite (window_count_step _ _ _ Hs Hle).
  cbn [seq map]. f_equal; [lia|].
  rewrite <- seq_shift, map_map. apply map_ext. intros i. lia.
Qed.

(** With a positive step and enough fuel the [while] loop ends and has
    appended the instants of the window. *)
Lemma times_loop_window step end_time :
  0 < step ->
  forall fuel current times,
    (window_count current end_time step < fuel)%nat ->
    times_loop fuel current end_time step times =
    Some (times ++ window current end_time step).
Proof.
  intros Hs. induction fuel as [|fuel IH]; intros current times Hf; [lia|].
  cbn [times_loop]. destruct (Z.leb_spec current end_time) as [Hle|Hgt].
  - rewrite (window_step _ _ _ Hs Hle).
    rewrite (window_count_step _ _ _ Hs Hle) in Hf.
    rewrite IH by lia. rewrite <- app_assoc. reflexivity.
  - rewrite window_past by lia. now rewrite app_nil_r.
Qed.

(** With a step that is not positive the loop never leaves a window it has
    entered: no amount of fuel gives a result. *)
Lemma times_loop_stuck end_time step :
  step <= 0 ->
  forall fuel current times,
    current <= end_time -> times_loop fuel current end_time step times = None.
Proof.
  intros Hs. induction fuel as [|fuel IH]; intros current times Hc;
    [reflexivity|].
  cbn [times_loop]. destruct (Z.leb_spec current end_time); [|lia].
  apply IH. lia.
Qed.

Lemma isspath_window_count t :
  window_count (t - isspath_dt_before) (t + isspath_dt_after) isspath_step =
  61%nat.
Proof.
  unfold window_count.
  replace (t + isspath_dt_after - (t - isspath_dt_before))
    with (isspath_dt_after + isspath_dt_before) by ring.
  reflexivity.
Qed.

(** ** Sampling the orbit path *)

Section Sampling.
Variable exn : Type.
Variable compute : propagator exn.

Lemma calculate_orbit_path_window fuel center before after step :
  0 < step ->
  (window_count (center - before) (center + after) step < fuel)%nat ->
  calculate_orbit_path exn compute fuel center before after step =
  Some (samples_loop exn compute
          (window (center - before) (center + after) step) [] []).
Proof.
  intros Hs Hf. unfold calculate_orbit_path.
  rewrite (times_loop_window step _ Hs) by exact Hf. reflexivity.
Qed.

Lemma samples_loop_raises times : forall lons lats t e,
  In t times -> compute t = Raised e ->
  exists e', samples_loop exn compute times lons lats = Raised e'.
Proof.
  induction times as [|t0 times IH]; intros lons lats t e Hin He;
    [destruct Hin|].
  cbn [samples_loop]. destruct (compute t0) as [b|e0] eqn:E0.
  - destruct Hin as [<-|Hin]; [congruence|]. eapply IH; eauto.
  - eauto.
Qed.

Lemma samples_loop_all_ok times : forall lons lats,
  (forall t, In t times -> exists b, compute t = Ok b) ->
  samples_loop exn compute times lons lats =
  Ok (lons ++ fst (sample_path_skip compute times),
      lats ++ snd (sample_path_skip compute times)).
Proof.
  induction times as [|t0 times IH]; intros lons lats Hall.
  - cbn. now rewrite !app_nil_r.
  - cbn [samples_loop sample_path_skip].
    destruct (Hall t0 (or_introl eq_refl)) as [b Hb]. rewrite Hb.
    rewrite IH by (intros t Ht; apply Hall; now right).
    cbn [fst snd]. rewrite <- !app_assoc. reflexivity.
Qed.


(** When an instant of the window cannot be propagated, [update_position]
    moves the marker and leaves the path, the circle and the title as they
    were. *)
Lemma update_position_path_error fuel t fig b t' e :
  (62 <= fuel)%nat ->
  compute t = Ok b ->
  In t' (window (t - isspath_dt_before) (t + isspath_dt_after) isspath_step) ->
  compute t' = Raised e ->
  update_position exn compute fuel t fig =
  Some (mkFigure ([to_degrees (sublong b)], [to_degrees (sublat b)])
                 (orbit_path fig) (visibility_circle fig) (title fig)).
Proof.
  intros Hf Hb Hin He. unfold update_position. rewrite Hb.
  rewrite calculate_orbit_path_window
    by (try reflexivity; rewrite isspath_window_count; lia).
  destruct (samples_loop_raises _ [] [] t' e Hin He) as [e' ->].
  reflexivity.
Qed.


End Sampling.

(** C3, as amended: with a positive step and enough fuel for the window,
    the sampler returns every sample, in order, when every instant of the
    window can be propagated; when some instant cannot, the sampler raises
    and returns no path at all. *)
Theorem orbit_path_error_aborts (exn : Type) (compute : propagator exn)
    (center before after step : Z) (fuel : nat) :
  0 < step ->
  (window_count (center - before) (center + after) step < fuel)%nat ->
  let times := window (center - before) (center + after) step in
  ((forall t, In t times -> exists b, compute t = Ok b) ->
   calculate_orbit_path exn compute fuel center before after step =
   Some (Ok (sample_path_skip compute times))) /\
  (forall t e, In t times -> compute t = Raised e ->
   exists e', calculate_orbit_path exn compute fuel center before after step =
              Some (Raised e')).
Proof.
  intros Hs Hf times. rewrite calculate_orbit_path_window by assumption.
  fold times. split.
  - intros Hall. rewrite samples_loop_all_ok by exact Hall. cbn [app].
    now destruct (sample_path_skip compute times).
  - intros t e Hin He.
    destruct (samples_loop_raises exn compute times [] [] t e Hin He)
      as [e' He'].
    exists e'. now rewrite He'.
Qed.

Lemma orbit_path_error_aborts_witness :
  exists e', calculate_orbit_path unit (flaky 60000000) 5 0 (timedelta 1 0)
               (timedelta 1 0) (timedelta 1 0) = Some (Raised e').
Proof.
  assert (Hs : 0 < timedelta 1 0) by reflexivity.
  assert (Hf : (window_count (0 - timedelta 1 0) (0 + timedelta 1 0)
                             (timedelta 1 0) < 5)%nat) by (vm_compute; lia).
  apply (proj2 (orbit_path_error_aborts unit (flaky 60000000) 0 (timedelta 1 0)
                  (timedelta 1 0) (timedelta 1 0) 5 Hs Hf) 60000000 tt).
  - vm_compute. auto.
  - reflexivity.
Defined.

(** C3 as stated fails: over the instants -60 s, 0 s, 60 s with a
    propagator that raises at 60 s only, skipping would keep two samples;
    the sampler raises and returns none. *)
Lemma sampling_error_discards_path :
  times_loop 5 (0 - timedelta 1 0) (0 + timedelta 1 0) (timedelta 1 0) [] =
    Some [-60000000; 0; 60000000] /\
  sample_path_skip (flaky 60000000) [-60000000; 0; 60000000] =
    ([to_degrees 0; to_degrees 0], [to_degrees 0; to_degrees 0]) /\
  calculate_orbit_path unit (flaky 60000000) 5 0 (timedelta 1 0)
    (timedelta 1 0) (timedelta 1 0) = Some (Raised tt).
Proof. repeat split. Qed.




(** ** The time cursor *)



Lemma key_time_shift_right t : key_time "shift+right" t = t + long_time_step.
Proof. reflexivity. Qed.

Lemma key_time_shift_left t : key_time "shift+left" t = t - long_time_step.
Proof. reflexivity. Qed.

Lemma key_time_upper_case t : key_time "Shift+Left" t = t - long_time_step.
Proof. reflexivity. Qed.

Lemma key_time_other t : key_time "up" t = t.
Proof. reflexivity. Qed.



Close Scope Z_scope.

(** * Further properties of the code *)

(** ** Great-circle distance *)

Open Scope R_scope.

Lemma asin_nonneg x : 0 <= x -> 0 <= asin x.
Proof.
  intros Hx. assert (Hp := PI_RGT_0). assert (Hb := asin_bound x).
  destruct (Rle_dec x 1) as [H1|H1].
  - destruct (Rle_dec 0 (asin x)) as [|Hn]; [assumption|].
    exfalso. assert (Hs : sin (asin x) < 0) by (apply sin_lt_0_var; lra).
    rewrite sin_asin in Hs by lra. lra.
  - unfold asin. destruct (Rle_dec x (-1)); [lra|].
    destruct (Rle_dec 1 x); lra.
Qed.

Lemma haversine_bounds lat1 lon1 lat2 lon2 :
  0 <= haversine_distance lat1 lon1 lat2 lon2 <= PI * 6371.
Proof.
  rewrite haversine_unfold. set (h := hav _ _ _ _).
  assert (H0 : 0 <= asin (sqrt h)) by (apply asin_nonneg, sqrt_pos).
  assert (H1 := asin_bound (sqrt h)). lra.
Qed.

(** X1: the great-circle distance lies between 0 and half the
    circumference [PI * 6371], and the upper end is reached between a
    point and its antipode. *)
Theorem haversine_range lat1 lon1 lat2 lon2 :
  0 <= haversine_distance lat1 lon1 lat2 lon2 <= PI * 6371 /\
  haversine_distance lat1 lon1 (- lat1) (lon1 + 180) = PI * 6371.
Proof.
  split; [apply haversine_bounds|].
  rewrite haversine_unfold. unfold hav.
  replace ((radians (- lat1) - radians lat1) / 2) with (- radians lat1)
    by (unfold radians; field).
  replace ((radians (lon1 + 180) - radians lon1) / 2) with (PI / 2)
    by (unfold radians; field).
  replace (radians (- lat1)) with (- radians lat1) by (unfold radians; ring).
  rewrite sin_neg, cos_neg, sin_PI2.
  assert (S := sin2_cos2 (radians lat1)). unfold Rsqr in S.
  assert (E : (- sin (radians lat1)) ^ 2 +
              cos (radians lat1) * cos (radians lat1) * 1 ^ 2 = 1).
  { transitivity (sin (radians lat1) * sin (radians lat1) +
                  cos (radians lat1) * cos (radians lat1)); [ring|exact S]. }
  rewrite E, sqrt_1, asin_1. field.
Qed.

Lemma asin_sqrt_sin_sq x :
  - (PI / 2) <= x <= PI / 2 -> asin (sqrt (sin x ^ 2)) = Rabs x.
Proof.
  intros Hx. assert (Hp := PI_RGT_0).
  replace (sin x ^ 2) with (Rsqr (sin x)) by (unfold Rsqr; ring).
  rewrite sqrt_Rsqr_abs.
  destruct (Rle_dec 0 x) as [H|H].
  - rewrite (Rabs_pos_eq x) by assumption.
    rewrite Rabs_pos_eq by (apply sin_ge_0; lra).
    apply asin_sin. lra.
  - rewrite (Rabs_left x) by lra.
    rewrite Rabs_left by (apply sin_lt_0_var; lra).
    rewrite <- sin_neg. apply asin_sin. lra.
Qed.

Lemma radians_Rabs x : radians (Rabs x) = Rabs (radians x).
Proof.
  unfold radians. assert (Hp := PI_RGT_0).
  rewrite Rabs_mult. f_equal. symmetry. apply Rabs_pos_eq.
  apply Rlt_le. apply Rdiv_lt_0_compat; lra.
Qed.


Lemma half_turn_bounds d :
  Rabs d <= 180 -> - (PI / 2) <= radians d / 2 <= PI / 2.
Proof.
  intros Hd. assert (Hp := PI_RGT_0). unfold radians.
  unfold Rabs in Hd. destruct (Rcase_abs d); split; nra.
Qed.

Lemma arc_of_half_angle d :
  Rabs d <= 180 ->
  6371 * 2 * asin (sqrt (sin (radians d / 2) ^ 2)) = 6371 * radians (Rabs d).
Proof.
  intros Hd. rewrite asin_sqrt_sin_sq by (now apply half_turn_bounds).
  rewrite radians_Rabs.
  replace (radians d / 2) with (radians d * / 2) by reflexivity.
  rewrite Rabs_mult, (Rabs_pos_eq (/ 2)) by lra. field.
Qed.

(** X2: along a meridian, and along the equator, the great-circle
    distance is the arc of the angle between the two points (up to half a
    turn): 6371 times that angle in radians. *)
Theorem haversine_meridian_equator :
  (forall lat1 lat2 lon, Rabs (lat2 - lat1) <= 180 ->
     haversine_distance lat1 lon lat2 lon =
     6371 * radians (Rabs (lat2 - lat1))) /\
  (forall lon1 lon2, Rabs (lon2 - lon1) <= 180 ->
     haversine_distance 0 lon1 0 lon2 =
     6371 * radians (Rabs (lon2 - lon1))).
Proof.
  split.
  - intros lat1 lat2 lon Hd. rewrite haversine_unfold. unfold hav.
    replace ((radians lon - radians lon) / 2) with 0 by field.
    rewrite sin_0.
    replace (sin ((radians lat2 - radians lat1) / 2) ^ 2 +
             cos (radians lat1) * cos (radians lat2) * 0 ^ 2)
      with (sin (radians (lat2 - lat1) / 2) ^ 2).
    + now apply arc_of_half_angle.
    + replace (radians (lat2 - lat1) / 2)
        with ((radians lat2 - radians lat1) / 2) by (unfold radians; field).
      ring.
  - intros lon1 lon2 Hd. rewrite haversine_unfold. unfold hav.
    replace (radians 0) with 0 by (unfold radians; ring).
    replace ((0 - 0) / 2) with 0 by field.
    rewrite sin_0, cos_0.
    replace (0 ^ 2 + 1 * 1 * sin ((radians lon2 - radians lon1) / 2) ^ 2)
      with (sin (radians (lon2 - lon1) / 2) ^ 2).
    + now apply arc_of_half_angle.
    + replace (radians (lon2 - lon1) / 2)
        with ((radians lon2 - radians lon1) / 2) by (unfold radians; field).
      ring.
Qed.

Lemma haversine_meridian_equator_witness :
  haversine_distance 0 0 0 90 = 6371 * radians (Rabs (90 - 0)).
Proof.
  apply (proj2 haversine_meridian_equator 0 90).
  replace (90 - 0) with 90 by ring. rewrite Rabs_pos_eq; lra.
Defined.

Lemma cos_period_Z x (k : Z) : cos (x + 2 * IZR k * PI) = cos x.
Proof.
  destruct (Z_le_gt_dec 0 k) as [Hk|Hk].
  - rewrite <- (Z2Nat.id k Hk), <- INR_IZR_INZ. apply cos_period.
  - rewrite <- (cos_period (x + 2 * IZR k * PI) (Z.to_nat (- k))).
    rewrite INR_IZR_INZ, Z2Nat.id by lia. rewrite opp_IZR. f_equal. ring.
Qed.

(** X3: the great-circle distance depends on the longitudes through their
    difference only, and that up to whole turns: shifting both longitudes
    by [s] and one of them by [360 * k] more changes nothing. *)
Theorem haversine_longitude_wrap lat1 lon1 lat2 lon2 s (k : Z) :
  haversine_distance lat1 (lon1 + s) lat2 (lon2 + s + 360 * IZR k) =
  haversine_distance lat1 lon1 lat2 lon2.
Proof.
  rewrite !haversine_unfold. unfold hav. rewrite !sin_half_sq.
  replace (radians (lon2 + s + 360 * IZR k) - radians (lon1 + s))
    with (radians lon2 - radians lon1 + 2 * IZR k * PI)
    by (unfold radians; field).
  rewrite cos_period_Z. reflexivity.
Qed.

(** ** Straight-line distance *)

Lemma unit_vector p l :
  (cos p * cos l) ^ 2 + (cos p * sin l) ^ 2 + sin p ^ 2 = 1.
Proof.
  assert (A := sin2_cos2 p). assert (B := sin2_cos2 l). unfold Rsqr in *.
  replace ((cos p * cos l) ^ 2 + (cos p * sin l) ^ 2 + sin p ^ 2)
    with (cos p * cos p * (sin l * sin l + cos l * cos l) + sin p * sin p)
    by ring.
  rewrite B. lra.
Qed.

(** The law of cosines between the two position vectors, with the
    haversine term for the angle. *)
Lemma straight_line_law_of_cosines lat1 lon1 alt1 lat2 lon2 alt2 :
  straight_line_distance lat1 lon1 alt1 lat2 lon2 alt2 =
  sqrt ((alt1 - alt2) ^ 2 +
        4 * ((6371 + alt1) * (6371 + alt2)) *
        hav (radians lat1) (radians lon1) (radians lat2) (radians lon2)).
Proof.
  unfold straight_line_distance. cbv zeta. f_equal.
  set (p1 := radians lat1). set (l1 := radians lon1).
  set (p2 := radians lat2). set (l2 := radians lon2).
  assert (Hc := chord_sq p1 l1 p2 l2).
  set (h := hav p1 l1 p2 l2) in *. clearbody h.
  set (r1 := 6371 + alt1). set (r2 := 6371 + alt2).
  replace (alt1 - alt2) with (r1 - r2) by (unfold r1, r2; ring).
  replace (4 * (r1 * r2) * h) with (r1 * r2 * (4 * h)) by ring.
  rewrite <- Hc. clear Hc h.
  assert (N1 := unit_vector p1 l1). assert (N2 := unit_vector p2 l2).
  set (n1 := (cos p1 * cos l1) ^ 2 + (cos p1 * sin l1) ^ 2 + sin p1 ^ 2) in *.
  set (n2 := (cos p2 * cos l2) ^ 2 + (cos p2 * sin l2) ^ 2 + sin p2 ^ 2) in *.
  transitivity ((r1 - r2) ^ 2 +
     r1 * r2 * ((cos p2 * cos l2 - cos p1 * cos l1) ^ 2 +
                (cos p2 * sin l2 - cos p1 * sin l1) ^ 2 +
                (sin p2 - sin p1) ^ 2) +
     (r2 * r2 - r1 * r2) * (n2 - 1) + (r1 * r1 - r1 * r2) * (n1 - 1)).
  - unfold n1, n2. ring.
  - rewrite N1, N2. ring.
Qed.

Lemma straight_line_ge_altitude_gap lat1 lon1 alt1 lat2 lon2 alt2 :
  -6371 <= alt1 -> -6371 <= alt2 ->
  Rabs (alt1 - alt2) <= straight_line_distance lat1 lon1 alt1 lat2 lon2 alt2.
Proof.
  intros H1 H2. rewrite straight_line_law_of_cosines.
  set (h := hav _ _ _ _). assert (Hh : 0 <= h <= 1) by apply hav_bounds.
  assert (P : 0 <= (6371 + alt1) * (6371 + alt2)) by nra.
  assert (Ph : 0 <= (6371 + alt1) * (6371 + alt2) * h)
    by (apply Rmult_le_pos; lra).
  rewrite <- sqrt_Rsqr_abs. apply sqrt_le_1_alt. unfold Rsqr. lra.
Qed.

(** X4: for two points not below the centre of the Earth, the
    straight-line distance is at least the difference of the altitudes and
    at most the sum of the two distances to the centre. *)
Theorem straight_line_bounds lat1 lon1 alt1 lat2 lon2 alt2 :
  -6371 <= alt1 -> -6371 <= alt2 ->
  Rabs (alt1 - alt2) <= straight_line_distance lat1 lon1 alt1 lat2 lon2 alt2
    <= 2 * 6371 + alt1 + alt2.
Proof.
  intros H1 H2. split; [now apply straight_line_ge_altitude_gap|].
  rewrite straight_line_law_of_cosines.
  set (h := hav _ _ _ _). assert (Hh : 0 <= h <= 1) by apply hav_bounds.
  set (r1 := 6371 + alt1). set (r2 := 6371 + alt2).
  assert (P : 0 <= r1 * r2) by (unfold r1, r2; nra).
  assert (Qh : r1 * r2 * h <= r1 * r2) by nra.
  replace (2 * 6371 + alt1 + alt2) with (r1 + r2) by (unfold r1, r2; ring).
  rewrite <- (sqrt_square (r1 + r2)) by (unfold r1, r2; lra).
  apply sqrt_le_1_alt.
  replace (alt1 - alt2) with (r1 - r2) by (unfold r1, r2; ring). nra.
Qed.

Lemma straight_line_bounds_witness :
  Rabs (420 - 0) <= straight_line_distance 10 20 420 30 40 0
    <= 2 * 6371 + 420 + 0.
Proof. apply straight_line_bounds; lra. Defined.

(** X5: straight above or below (same latitude and longitude) the
    straight-line distance is exactly the difference of the altitudes. *)
Theorem straight_line_overhead lat lon alt1 alt2 :
  straight_line_distance lat lon alt1 lat lon alt2 = Rabs (alt1 - alt2).
Proof.
  rewrite straight_line_law_of_cosines.
  replace (hav (radians lat) (radians lon) (radians lat) (radians lon)) with 0.
  - rewrite Rmult_0_r, Rplus_0_r.
    replace ((alt1 - alt2) ^ 2) with (Rsqr (alt1 - alt2)) by (unfold Rsqr; ring).
    apply sqrt_Rsqr_abs.
  - unfold hav.
    replace ((radians lat - radians lat) / 2) with 0 by field.
    replace ((radians lon - radians lon) / 2) with 0 by field.
    rewrite sin_0. ring.
Qed.

(** X6: the straight-line distance does not depend on the order of the
    two points. *)
Theorem straight_line_symmetric lat1 lon1 alt1 lat2 lon2 alt2 :
  straight_line_distance lat1 lon1 alt1 lat2 lon2 alt2 =
  straight_line_distance lat2 lon2 alt2 lat1 lon1 alt1.
Proof.
  unfold straight_line_distance. cbv zeta. f_equal. ring.
Qed.


(** ** The visibility circle is a circle *)













Close Scope R_scope.

(** ** Fetching the element set *)

Section FetchFacts.
Import Tle.
Local Open Scope string_scope.

Lemma is_space_newline : is_space newline = true.
Proof. reflexivity. Qed.

Lemma rstrip_idem s : rstrip (rstrip s) = rstrip s.
Proof.
  induction s as [|c s IH]; [reflexivity|].
  cbn [rstrip]. destruct (rstrip s) as [|c' r] eqn:E.
  - destruct (is_space c) eqn:Ec; [reflexivity|]. cbn. now rewrite Ec.
  - cbn [rstrip]. change (match rstrip r with
                          | "" => if is_space c' then "" else String c' ""
                          | String a s0 => String c' (String a s0) end)
      with (rstrip (String c' r)).
    rewrite IH. reflexivity.
Qed.

Lemma lstrip_head s : match lstrip s with
                      | EmptyString => True
                      | String c _ => is_space c = false
                      end.
Proof.
  induction s as [|c s IH]; [exact I|].
  cbn [lstrip]. destruct (is_space c) eqn:E; [exact IH|exact E].
Qed.

Lemma lstrip_fixed c s : is_space c = false -> lstrip (String c s) = String c s.
Proof. intros H. cbn. now rewrite H. Qed.

Lemma lstrip_idem s : lstrip (lstrip s) = lstrip s.
Proof.
  assert (H := lstrip_head s). destruct (lstrip s) as [|c r]; [reflexivity|].
  now apply lstrip_fixed.
Qed.

Lemma lstrip_rstrip_nonempty c s :
  is_space c = false -> rstrip (String c s) = String c (rstrip s).
Proof.
  intros H. cbn [rstrip]. destruct (rstrip s); [now rewrite H|reflexivity].
Qed.

Lemma strip_idem s : strip (strip s) = strip s.
Proof.
  unfold strip. assert (H := lstrip_head s).
  destruct (lstrip s) as [|c r] eqn:E; [reflexivity|].
  rewrite lstrip_rstrip_nonempty by exact H.
  rewrite lstrip_fixed by exact H.
  rewrite <- lstrip_rstrip_nonempty by exact H. apply rstrip_idem.
Qed.

Lemma lstrip_app a t : lstrip a <> "" -> lstrip (a ++ t) = lstrip a ++ t.
Proof.
  induction a as [|c a IH]; intros H; [now elim H|].
  cbn [lstrip append] in *. destruct (is_space c); [now apply IH|reflexivity].
Qed.

Lemma rstrip_app_nonempty s t :
  rstrip t <> "" -> rstrip (s ++ t) = s ++ rstrip t.
Proof.
  intros H. induction s as [|c s IH]; [reflexivity|].
  cbn [append rstrip]. rewrite IH.
  destruct (s ++ rstrip t) eqn:E; [|reflexivity].
  destruct s; [cbn in E; now elim H|discriminate].
Qed.

Lemma rstrip_app_empty s t : rstrip t = "" -> rstrip (s ++ t) = rstrip s.
Proof.
  intros H. induction s as [|c s IH]; [exact H|].
  cbn [append rstrip]. now rewrite IH.
Qed.

Lemma rstrip_prefix s : exists w, s = rstrip s ++ w.
Proof.
  induction s as [|c s [w IH]]; [now exists ""|].
  cbn [rstrip]. destruct (rstrip s) as [|c' r] eqn:E.
  - destruct (is_space c); [now exists (String c s)|].
    exists s. reflexivity.
  - exists w. cbn [append]. f_equal. exact IH.
Qed.

Lemma rstrip_empty_lstrip s : rstrip s = "" -> lstrip s = "".
Proof.
  induction s as [|c s IH]; [reflexivity|].
  cbn [rstrip lstrip]. destruct (rstrip s); [|discriminate].
  destruct (is_space c); [intros _; now apply IH|discriminate].
Qed.

Lemma lstrip_rstrip_comm s : lstrip (rstrip s) = rstrip (lstrip s).
Proof.
  induction s as [|c s IH]; [reflexivity|].
  destruct (is_space c) eqn:Ec.
  - cbn [lstrip]. rewrite Ec. cbn [rstrip].
    destruct (rstrip s) as [|c' r] eqn:E.
    + rewrite Ec. cbn. rewrite (rstrip_empty_lstrip s E). reflexivity.
    + cbn [lstrip]. rewrite Ec. exact IH.
  - rewrite (lstrip_fixed c s Ec), (lstrip_rstrip_nonempty c s Ec).
    now apply lstrip_fixed.
Qed.

Lemma strip_lstrip s : strip (lstrip s) = strip s.
Proof. unfold strip. now rewrite lstrip_idem. Qed.

Lemma strip_rstrip s : strip (rstrip s) = strip s.
Proof. unfold strip. now rewrite lstrip_rstrip_comm, rstrip_idem. Qed.

Lemma has_newline_app s t :
  has_newline (s ++ t) = has_newline s || has_newline t.
Proof.
  induction s as [|c s IH]; [reflexivity|].
  cbn [append has_newline]. now rewrite IH, orb_assoc.
Qed.

Lemma has_newline_lstrip s : has_newline s = false -> has_newline (lstrip s) = false.
Proof.
  induction s as [|c s IH]; [reflexivity|].
  cbn [lstrip]. destruct (is_space c); [|auto].
  cbn [has_newline]. intros H. apply orb_false_elim in H. now apply IH.
Qed.

Lemma has_newline_rstrip s : has_newline s = false -> has_newline (rstrip s) = false.
Proof.
  intros H. destruct (rstrip_prefix s) as [w E]. rewrite E in H.
  rewrite has_newline_app in H. now apply orb_false_elim in H.
Qed.

Lemma has_newline_strip s : has_newline s = false -> has_newline (strip s) = false.
Proof. intros H. now apply has_newline_rstrip, has_newline_lstrip. Qed.

Lemma split_lines_nonempty s : exists l ls, split_lines s = l :: ls.
Proof.
  destruct s as [|c s]; [cbn; eauto|].
  cbn [split_lines]. destruct (Ascii.eqb c newline); [eauto|].
  destruct (split_lines s); eauto.
Qed.

Lemma split_lines_line a t :
  has_newline a = false ->
  split_lines (a ++ String newline t) = a :: split_lines t.
Proof.
  induction a as [|c a IH]; intros H.
  - cbn. reflexivity.
  - cbn [has_newline] in H. apply orb_false_elim in H. destruct H as [Hc Ha].
    cbn [append split_lines]. rewrite Hc, IH by exact Ha. reflexivity.
Qed.

Lemma split_lines_last a :
  has_newline a = false -> split_lines a = [a].
Proof.
  induction a as [|c a IH]; intros H; [reflexivity|].
  cbn [has_newline] in H. apply orb_false_elim in H. destruct H as [Hc Ha].
  cbn [split_lines]. rewrite Hc, IH by exact Ha. reflexivity.
Qed.

Lemma split_lines_no_newline s :
  Forall (fun l => has_newline l = false) (split_lines s).
Proof.
  induction s as [|c s IH]; [repeat constructor|].
  cbn [split_lines]. destruct (Ascii.eqb c newline) eqn:Ec.
  - constructor; [reflexivity|exact IH].
  - destruct (split_lines s) as [|l ls]; [repeat constructor; cbn; now rewrite Ec|].
    inversion IH; subst. constructor; [|assumption].
    cbn. now rewrite Ec.
Qed.

Lemma strip_trimmed l : has_newline l = false -> trimmed (strip l).
Proof.
  intros H. split; [apply strip_idem|now apply has_newline_strip].
Qed.

(** X11: whatever the request gives, [fetch_latest_tle] returns three
    strings without a line feed and without white space at either end. *)
Theorem fetch_latest_tle_trimmed (exn : Type) (response : result exn string) :
  let '(name, line1, line2) := fetch_latest_tle response in
  trimmed name /\ trimmed line1 /\ trimmed line2.
Proof.
  assert (F : let '(name, line1, line2) := fallback in
              trimmed name /\ trimmed line1 /\ trimmed line2).
  { cbn. repeat split; reflexivity. }
  destruct response as [text|e]; [|exact F].
  cbn [fetch_latest_tle].
  assert (H := split_lines_no_newline (strip text)).
  destruct (split_lines (strip text)) as [|l0 [|l1 [|l2 ls]]]; try exact F.
  inversion H as [|? ? H0 H']; subst. inversion H' as [|? ? H1 H'']; subst.
  inversion H'' as [|? ? H2 _]; subst.
  repeat split; try apply strip_idem; now apply has_newline_strip.
Qed.

Lemma split_lines_length s :
  List.length (split_lines s) = S (count_newlines s).
Proof.
  induction s as [|c s IH]; [reflexivity|].
  cbn [split_lines count_newlines]. destruct (Ascii.eqb c newline).
  - cbn [List.length]. now rewrite IH.
  - destruct (split_lines s); [discriminate|]. cbn in *. exact IH.
Qed.

(** X12: when the request fails, or when the stripped answer has fewer
    than two line feeds (fewer than three lines), the backup element set is
    returned. *)
Theorem fetch_latest_tle_fallback (exn : Type) :
  (forall e : exn, fetch_latest_tle (Raised e) = fallback) /\
  (forall text, count_newlines (strip text) < 2 ->
     fetch_latest_tle (@Ok exn string text) = fallback).
Proof.
  split; [reflexivity|].
  intros text H. cbn [fetch_latest_tle].
  assert (L := split_lines_length (strip text)).
  destruct (split_lines (strip text)) as [|l0 [|l1 [|l2 ls]]]; try reflexivity.
  cbn [List.length] in L. lia.
Qed.

Lemma fetch_latest_tle_fallback_witness :
  fetch_latest_tle (@Ok unit string ("ISS (ZARYA)" ++ NL ++ "1 25544U")) =
  fallback.
Proof.
  apply (proj2 (fetch_latest_tle_fallback unit)). vm_compute. lia.
Defined.

Lemma strip_nonempty_lstrip a : strip a <> "" -> lstrip a <> "".
Proof. unfold strip. intros H E. rewrite E in H. now apply H. Qed.

Lemma strip_nonempty_rstrip a : strip a <> "" -> rstrip a <> "".
Proof.
  intros H E. apply H. rewrite <- strip_rstrip, E. reflexivity.
Qed.

Lemma rstrip_app_keeps c t : rstrip c <> "" -> rstrip (c ++ t) <> "".
Proof.
  intros H E. destruct (rstrip t) eqn:Et.
  - rewrite rstrip_app_empty in E by exact Et. now apply H.
  - rewrite rstrip_app_nonempty in E by (rewrite Et; discriminate).
    destruct c; [now apply H|discriminate].
Qed.

Lemma concat_lines_cons c more :
  String.concat NL (c :: more) = c \/
  exists t0, String.concat NL (c :: more) = c ++ String newline t0.
Proof.
  destruct more as [|m more]; [now left|]. right.
  cbn [String.concat]. unfold NL at 1. cbn [append]. eauto.
Qed.

Lemma split_lines_stripped_tail c tail :
  has_newline c = false -> rstrip c <> "" ->
  (tail = "" \/ exists t0, tail = String newline t0) ->
  exists l ls, split_lines (rstrip (c ++ tail)) = l :: ls /\ strip l = strip c.
Proof.
  intros Hc Hr Ht. destruct (rstrip tail) as [|x r] eqn:E.
  - rewrite rstrip_app_empty by exact E.
    rewrite split_lines_last by (now apply has_newline_rstrip).
    eexists. eexists. split; [reflexivity|apply strip_rstrip].
  - destruct Ht as [->|[t0 ->]]; [discriminate|].
    rewrite rstrip_app_nonempty by (rewrite E; discriminate).
    rewrite E. cbn [rstrip] in E. rewrite is_space_newline in E.
    destruct (rstrip t0) as [|y r'] eqn:E0; [discriminate|].
    injection E as <- <-.
    rewrite split_lines_line by exact Hc. eauto.
Qed.

(** X13: from an answer whose first and third lines are not blank, the
    result is the first three lines, each stripped; further lines and the
    carriage returns of CRLF line ends are dropped. *)
Theorem fetch_latest_tle_first_lines (exn : Type) (a b c : string)
    (more : list string) :
  has_newline a = false -> has_newline b = false -> has_newline c = false ->
  strip a <> "" -> strip c <> "" ->
  fetch_latest_tle (@Ok exn string (String.concat NL (a :: b :: c :: more))) =
  (strip a, strip b, strip c).
Proof.
  intros Ha Hb Hc Na Nc. cbn [fetch_latest_tle].
  set (T := String.concat NL (c :: more)).
  assert (ET : String.concat NL (a :: b :: c :: more) =
               a ++ String newline (b ++ String newline T)) by reflexivity.
  rewrite ET. clear ET.
  assert (HT : exists tail, T = c ++ tail /\
                (tail = "" \/ exists t0, tail = String newline t0)).
  { destruct (concat_lines_cons c more) as [E|[t0 E]]; fold T in E.
    - exists "". split; [|now left].
      rewrite E. clear. induction c; cbn; [reflexivity|now f_equal].
    - exists (String newline t0). split; [exact E|right; eauto]. }
  destruct HT as [tail [-> Htail]].
  unfold strip at 1.
  rewrite lstrip_app by (now apply strip_nonempty_lstrip).
  assert (Hr := strip_nonempty_rstrip c Nc).
  assert (EA : lstrip a ++ String newline (b ++ String newline (c ++ tail)) =
               (lstrip a ++ String newline (b ++ NL)) ++ (c ++ tail)).
  { clear. induction (lstrip a) as [|x s IH]; cbn [append].
    - f_equal. induction b as [|y s IH]; cbn [append]; [reflexivity|now f_equal].
    - now f_equal. }
  rewrite EA, rstrip_app_nonempty by (now apply rstrip_app_keeps).
  assert (EB : (lstrip a ++ String newline (b ++ NL)) ++ rstrip (c ++ tail) =
               lstrip a ++ String newline (b ++ String newline (rstrip (c ++ tail)))).
  { clear. induction (lstrip a) as [|x s IH]; cbn [append].
    - f_equal. induction b as [|y s IH]; cbn [append]; [reflexivity|now f_equal].
    - now f_equal. }
  rewrite EB.
  rewrite split_lines_line by (now apply has_newline_lstrip).
  rewrite split_lines_line by exact Hb.
  destruct (split_lines_stripped_tail c tail Hc Hr Htail) as [l [ls [-> El]]].
  now rewrite strip_lstrip, El.
Qed.

Lemma fetch_latest_tle_first_lines_witness :
  fetch_latest_tle
    (@Ok unit string
       (String.concat NL ["ISS (ZARYA)   "; " 1 25544U"; "2 25544 "; "NEXT"])) =
  ("ISS (ZARYA)", "1 25544U", "2 25544").
Proof.
  apply (fetch_latest_tle_first_lines unit "ISS (ZARYA)   " " 1 25544U"
           "2 25544 " ["NEXT"]);
    try reflexivity; vm_compute; discriminate.
Defined.

End FetchFacts.

(** ** More on the orbit path and the redraw *)

Open Scope Z_scope.

Lemma nth_map_seq {A : Type} (f : nat -> A) n i d :
  (i < n)%nat -> nth i (map f (seq 0 n)) d = f i.
Proof.
  intros Hi. rewrite (nth_indep _ d (f 0%nat))
    by (rewrite length_map, length_seq; exact Hi).
  rewrite map_nth, seq_nth by exact Hi. reflexivity.
Qed.

Lemma window_nth start_time end_time step i :
  (i < window_count start_time end_time step)%nat ->
  nth i (window start_time end_time step) 0 = start_time + Z.of_nat i * step.
Proof. intros Hi. unfold window. now rewrite nth_map_seq. Qed.

Lemma window_length start_time end_time step :
  List.length (window start_time end_time step) =
  window_count start_time end_time step.
Proof. unfold window. now rewrite length_map, length_seq. Qed.

Lemma window_count_span start_time end_time step :
  0 < step -> start_time <= end_time ->
  window_count start_time end_time step =
  S (Z.to_nat ((end_time - start_time) / step)).
Proof.
  intros Hs Hle. unfold window_count.
  assert (0 <= (end_time - start_time) / step) by (apply Z.div_pos; lia).
  rewrite Z2Nat.inj_add by lia. simpl (Z.to_nat 1). lia.
Qed.

(** X14: for a positive step and a window that is not empty, the instants
    of the orbit path start at [start_time], advance by [step], number
    [(end_time - start_time) / step + 1], and the last one lies within one
    step of [end_time], which it never passes. *)
Theorem orbit_times_cover_window (fuel : nat) (start_time end_time step : Z) :
  0 < step -> start_time <= end_time ->
  (Z.to_nat ((end_time - start_time) / step) + 1 < fuel)%nat ->
  exists times,
    times_loop fuel start_time end_time step [] = Some times /\
    List.length times = (Z.to_nat ((end_time - start_time) / step) + 1)%nat /\
    (forall i, (i < List.length times)%nat ->
       nth i times 0 = start_time + Z.of_nat i * step) /\
    end_time - step < last times 0 <= end_time.
Proof.
  intros Hs Hle Hf.
  assert (Hc := window_count_span _ _ _ Hs Hle).
  exists (window start_time end_time step).
  rewrite times_loop_window by (try exact Hs; lia). cbn [app].
  rewrite window_length, Hc.
  split; [reflexivity|]. split; [lia|].
  split; [intros i Hi; apply window_nth; lia|].
  set (n := Z.to_nat ((end_time - start_time) / step)) in *.
  assert (L : last (window start_time end_time step) 0 =
              start_time + Z.of_nat n * step).
  { unfold window. rewrite Hc. rewrite seq_S, map_app. cbn [map].
    rewrite last_last. reflexivity. }
  rewrite L. unfold n. rewrite Z2Nat.id by (apply Z.div_pos; lia).
  assert (M := Z.mod_pos_bound (end_time - start_time) step Hs).
  assert (D := Z.div_mod (end_time - start_time) step ltac:(lia)).
  nia.
Qed.

Lemma orbit_times_cover_window_witness :
  exists times,
    times_loop 62 (0 - isspath_dt_before) (0 + isspath_dt_after) isspath_step [] =
      Some times /\
    List.length times = 61%nat.
Proof.
  destruct (orbit_times_cover_window 62 (0 - isspath_dt_before)
              (0 + isspath_dt_after) isspath_step) as [times [H1 [H2 _]]].
  - reflexivity.
  - vm_compute. discriminate.
  - vm_compute. lia.
  - exists times. split; [exact H1|exact H2].
Defined.

Section MoreSampling.
Variable exn : Type.
Variable compute : propagator exn.

Lemma samples_loop_lengths times : forall lons lats lons' lats',
  samples_loop exn compute times lons lats = Ok (lons', lats') ->
  List.length lons' = (List.length lons + List.length times)%nat /\
  List.length lats' = (List.length lats + List.length times)%nat.
Proof.
  induction times as [|t times IH]; intros lons lats lons' lats' H.
  - cbn in H. injection H as <- <-. cbn. lia.
  - cbn [samples_loop] in H. destruct (compute t) as [b|e]; [|discriminate].
    apply IH in H. rewrite !length_app in H. cbn [List.length] in *. lia.
Qed.

Lemma samples_loop_first_error pre t post e : forall lons lats,
  (forall u, In u pre -> exists b, compute u = Ok b) ->
  compute t = Raised e ->
  samples_loop exn compute (pre ++ t :: post) lons lats = Raised e.
Proof.
  induction pre as [|u pre IH]; intros lons lats Hpre He.
  - cbn. now rewrite He.
  - cbn [app samples_loop].
    destruct (Hpre u (or_introl eq_refl)) as [b ->].
    apply IH; [|exact He]. intros v Hv. apply Hpre. now right.
Qed.

End MoreSampling.

(** X15: whenever the sampler returns a path (positive step, window not
    empty), the longitudes and the latitudes have the same length,
    [(before + after) / step + 1]. *)
Theorem orbit_path_sample_count (exn : Type) (compute : propagator exn)
    (fuel : nat) (center before after step : Z) (lons lats : list R) :
  0 < step -> 0 <= before + after ->
  calculate_orbit_path exn compute fuel center before after step =
    Some (Ok (lons, lats)) ->
  List.length lons = (Z.to_nat ((before + after) / step) + 1)%nat /\
  List.length lats = List.length lons.
Proof.
  intros Hs Hw H. unfold calculate_orbit_path in H.
  destruct (times_loop fuel (center - before) (center + after) step [])
    as [times|] eqn:E; [|discriminate].
  injection H as H. apply samples_loop_lengths in H. cbn [List.length] in H.
  assert (L : List.length times = (Z.to_nat ((before + after) / step) + 1)%nat).
  { destruct (Nat.lt_ge_cases
                (window_count (center - before) (center + after) step) fuel)
      as [Hf|Hf].
    - rewrite times_loop_window in E by assumption.
      injection E as <-. cbn [app]. rewrite window_length.
      rewrite window_count_span by lia.
      replace (center + after - (center - before)) with (before + after) by ring.
      lia.
    - exfalso. revert E. generalize (@nil Z).
      assert (G : forall f cur acc,
                (f <= window_count cur (center + after) step)%nat ->
                times_loop f cur (center + after) step acc = None).
      { induction f as [|f IH]; intros cur acc Hle; [reflexivity|].
        cbn [times_loop]. destruct (Z.leb_spec cur (center + after)) as [Hc|Hc].
        - apply IH. rewrite (window_count_step _ _ _ Hs Hc) in Hle. lia.
        - rewrite window_count_past in Hle by lia. lia. }
      intros acc E. rewrite G in E by exact Hf. discriminate. }
  lia.
Qed.

Lemma orbit_path_sample_count_witness :
  List.length [to_degrees 0] = (Z.to_nat ((0 + 0) / timedelta 0 60) + 1)%nat /\
  List.length [to_degrees 0] = List.length [to_degrees 0].
Proof.
  apply (orbit_path_sample_count unit steady 2 0 0 0 (timedelta 0 60)).
  - reflexivity.
  - lia.
  - reflexivity.
Defined.

(** X16: when the window ends before it starts ([before + after < 0]) the
    sampler returns two empty lists, whatever the step and the propagator. *)
Theorem orbit_path_empty_window (exn : Type) (compute : propagator exn)
    (fuel : nat) (center before after step : Z) :
  before + after < 0 ->
  calculate_orbit_path exn compute (S fuel) center before after step =
  Some (Ok ([], [])).
Proof.
  intros H. unfold calculate_orbit_path. cbn [times_loop].
  destruct (Z.leb_spec (center - before) (center + after)); [lia|reflexivity].
Qed.

Lemma orbit_path_empty_window_witness :
  calculate_orbit_path unit (flaky 0) 1 0 (-60) 0 0 = Some (Ok ([], [])).
Proof. apply (orbit_path_empty_window unit (flaky 0) 0 0 (-60) 0 0). lia. Defined.

(** X17: with the step 0 and a window that is not empty the sampler never
    returns: it appends the first instant of the window again and again. *)
Theorem orbit_path_step_zero_diverges (exn : Type) (compute : propagator exn)
    (center before after : Z) :
  0 <= before + after ->
  forall fuel,
    calculate_orbit_path exn compute fuel center before after 0 = None.
Proof.
  intros Hw fuel. unfold calculate_orbit_path.
  rewrite times_loop_stuck by lia. reflexivity.
Qed.

Lemma orbit_path_step_zero_diverges_witness :
  calculate_orbit_path unit steady 1000 0 isspath_dt_before isspath_dt_after
    0 = None.
Proof.
  apply (orbit_path_step_zero_diverges unit steady 0 isspath_dt_before
           isspath_dt_after).
  vm_compute. discriminate.
Defined.

(** X18: the sampler raises the exception of the earliest instant of the
    window that cannot be propagated. *)
Theorem orbit_path_first_error (exn : Type) (compute : propagator exn)
    (fuel : nat) (center before after step : Z)
    (pre post : list Z) (t : Z) (e : exn) :
  0 < step ->
  (window_count (center - before) (center + after) step < fuel)%nat ->
  window (center - before) (center + after) step = pre ++ t :: post ->
  (forall u, In u pre -> exists b, compute u = Ok b) ->
  compute t = Raised e ->
  calculate_orbit_path exn compute fuel center before after step =
  Some (Raised e).
Proof.
  intros Hs Hf Hw Hpre He.
  rewrite calculate_orbit_path_window by assumption.
  rewrite Hw. f_equal. now apply samples_loop_first_error.
Qed.

Lemma orbit_path_first_error_witness :
  calculate_orbit_path unit (flaky 0) 5 0 (timedelta 1 0) (timedelta 1 0)
    (timedelta 1 0) = Some (Raised tt).
Proof.
  apply (orbit_path_first_error unit (flaky 0) 5 0 (timedelta 1 0)
           (timedelta 1 0) (timedelta 1 0) [-60000000] [60000000] 0 tt).
  - reflexivity.
  - vm_compute. lia.
  - reflexivity.
  - intros u [<-|[]]. exists (mkBody 0 0 0). reflexivity.
  - reflexivity.
Defined.

Section Redraw.
Variable exn : Type.
Variable compute : propagator exn.

Lemma sample_path_skip_nth times : forall i t b,
  (forall u, In u times -> exists b, compute u = Ok b) ->
  nth_error times i = Some t -> compute t = Ok b ->
  nth i (fst (sample_path_skip compute times)) 0%R = to_degrees (sublong b) /\
  nth i (snd (sample_path_skip compute times)) 0%R = to_degrees (sublat b).
Proof.
  induction times as [|u times IH]; intros i t b Hall Hi Hb.
  - destruct i; discriminate.
  - cbn [sample_path_skip].
    destruct (Hall u (or_introl eq_refl)) as [bu Hu]. rewrite Hu. cbn [fst snd].
    destruct i as [|i].
    + cbn in Hi. injection Hi as ->. rewrite Hb in Hu. injection Hu as <-.
      split; reflexivity.
    + cbn [nth]. apply (IH i t b); auto. intros v Hv. apply Hall. now right.
Qed.

Lemma isspath_window_center t :
  nth_error (window (t - isspath_dt_before) (t + isspath_dt_after) isspath_step)
            30 = Some t.
Proof.
  unfold window. rewrite isspath_window_count.
  rewrite nth_error_map.
  replace (nth_error (seq 0 61) 30) with (Some 30%nat) by reflexivity.
  cbn [option_map]. f_equal. unfold isspath_dt_before, isspath_step, timedelta.
  lia.
Qed.

(** X19: when every instant of the window propagates, the redraw puts the
    marker at the sub-point of the current instant and draws an orbit path
    of 61 samples whose middle one (index 30) is the marker's position. *)
Theorem update_position_path_through_marker fuel t fig :
  (62 <= fuel)%nat ->
  (forall u,
     In u (window (t - isspath_dt_before) (t + isspath_dt_after) isspath_step) ->
     exists b, compute u = Ok b) ->
  exists b fig',
    compute t = Ok b /\
    update_position exn compute fuel t fig = Some fig' /\
    iss_marker fig' = ([to_degrees (sublong b)], [to_degrees (sublat b)]) /\
    List.length (fst (orbit_path fig')) = 61%nat /\
    List.length (snd (orbit_path fig')) = 61%nat /\
    nth 30 (fst (orbit_path fig')) 0%R = to_degrees (sublong b) /\
    nth 30 (snd (orbit_path fig')) 0%R = to_degrees (sublat b).
Proof.
  intros Hf Hall.
  set (w := window (t - isspath_dt_before) (t + isspath_dt_after) isspath_step)
    in *.
  assert (Hc : nth_error w 30 = Some t) by apply isspath_window_center.
  destruct (Hall t (nth_error_In _ _ Hc)) as [b Hb].
  exists b. unfold update_position. rewrite Hb.
  rewrite calculate_orbit_path_window
    by (try reflexivity; rewrite isspath_window_count; lia).
  fold w. rewrite samples_loop_all_ok by exact Hall. cbn [app].
  eexists. split; [reflexivity|]. split; [reflexivity|].
  cbn [iss_marker orbit_path fst snd].
  split; [reflexivity|].
  assert (L := samples_loop_lengths exn compute w [] []
                 (fst (sample_path_skip compute w))
                 (snd (sample_path_skip compute w))).
  rewrite samples_loop_all_ok in L by exact Hall. cbn [app] in L.
  specialize (L eq_refl). cbn [List.length] in L.
  assert (Lw : List.length w = 61%nat)
    by (unfold w; rewrite window_length; apply isspath_window_count).
  rewrite Lw in L.
  destruct L as [L1 L2].
  split; [exact L1|]. split; [exact L2|].
  apply (sample_path_skip_nth w 30 t b Hall Hc Hb).
Qed.

(** X20: a redraw whose own instant cannot be propagated changes nothing
    on the figure; one that fails on another instant of the path moves the
    marker and leaves path, circle and title as they were. *)
Theorem update_position_error_keeps_figure fuel t fig :
  (forall e, compute t = Raised e ->
     update_position exn compute fuel t fig = Some fig) /\
  (forall b u e, (62 <= fuel)%nat -> compute t = Ok b ->
     In u (window (t - isspath_dt_before) (t + isspath_dt_after) isspath_step) ->
     compute u = Raised e ->
     update_position exn compute fuel t fig =
     Some (mkFigure ([to_degrees (sublong b)], [to_degrees (sublat b)])
                    (orbit_path fig) (visibility_circle fig) (title fig))).
Proof.
  split.
  - intros e He. unfold update_position. now rewrite He.
  - intros b u e Hf Hb Hin He.
    now apply (update_position_path_error exn compute fuel t fig b u e).
Qed.

End Redraw.

Lemma update_position_path_through_marker_witness :
  exists b fig',
    steady 0 = Ok b /\
    update_position unit steady 62 0 (mkFigure ([], []) ([], []) ([], []) None) =
      Some fig' /\
    List.length (fst (orbit_path fig')) = 61%nat.
Proof.
  destruct (update_position_path_through_marker unit steady 62 0
              (mkFigure ([], []) ([], []) ([], []) None))
    as [b [fig' [H1 [H2 [_ [H3 _]]]]]].
  - lia.
  - intros u _. exists (mkBody 0 0 0). reflexivity.
  - exists b, fig'. auto.
Defined.

Lemma update_position_error_keeps_figure_witness :
  update_position unit (flaky 60000000) 62 0
    (mkFigure ([], []) ([], []) ([], []) None) =
  Some (mkFigure ([to_degrees 0], [to_degrees 0]) ([], []) ([], []) None).
Proof.
  apply (proj2 (update_position_error_keeps_figure unit (flaky 60000000) 62 0
                  (mkFigure ([], []) ([], []) ([], []) None))
               (mkBody 0 0 0) 60000000 tt).
  - lia.
  - reflexivity.
  - apply (nth_error_In _ 31). reflexivity.
  - reflexivity.
Defined.

(** ** More on the time cursors *)

Lemma lower_ascii_idem c : lower_ascii (lower_ascii c) = lower_ascii c.
Proof.
  destruct c as [[] [] [] [] [] [] [] []]; reflexivity.
Qed.

Lemma lower_idem s : lower (lower s) = lower s.
Proof.
  induction s as [|c s IH]; [reflexivity|].
  cbn [lower]. now rewrite lower_ascii_idem, IH.
Qed.

Lemma key_time_lower key t : key_time (lower key) t = key_time key t.
Proof. unfold key_time. now rewrite lower_idem. Qed.


Section Keys1256.
Variable exn : Type.
Variable compute : propagator exn.

(** X21: the key name is read without regard to case: a key and its
    lower-case form act alike. *)
Theorem on_key_case_insensitive fuel key st :
  on_key exn compute fuel (lower key) st = on_key exn compute fuel key st.
Proof. unfold on_key. now rewrite key_time_lower. Qed.

Lemma press_keys_none fuel keys :
  fold_left (fun o key => match o with
                          | Some s => on_key exn compute fuel key s
                          | None => None
                          end) keys None = None.
Proof. induction keys; [reflexivity|assumption]. Qed.




End Keys1256.


(** ** The earlier scripts *)

Section Py3Facts.
Variable exn : Type.
Variable compute : propagator exn.

Lemma store_history_ok lon lat lons lats :
  List.length lons = List.length lats -> (List.length lons <= 100)%nat ->
  let h := Py3.store_history lon lat (lons, lats) in
  List.length (fst h) = List.length (snd h) /\
  (List.length (fst h) <= 100)%nat /\
  (List.length lons <= List.length (fst h) <= S (List.length lons))%nat /\
  last (fst h) 0%R = lon /\ last (snd h) 0%R = lat.
Proof.
  intros He Hc. unfold Py3.store_history. cbn [fst snd].
  rewrite !length_app. cbn [List.length].
  destruct (Nat.ltb_spec 100 (List.length lons + 1)) as [H|H]; cbn [fst snd].
  - destruct lons as [|x lons]; [cbn in H; exfalso; lia|].
    destruct lats as [|y lats]; [discriminate|].
    cbn [List.length] in *. cbn [app tl].
    rewrite !length_app, !last_last. cbn [List.length].
    repeat split; try reflexivity; lia.
  - rewrite !length_app, !last_last. cbn [List.length].
    repeat split; try reflexivity; lia.
Qed.

Lemma on_key_history_ok key st :
  history_ok st -> history_ok (fst (Py3.on_key exn compute key st)).
Proof.
  intros [He Hc]. unfold Py3.on_key, Py3.update_position.
  destruct (key =? "right")%string.
  - cbn [Py3.current_time Py3.past_lons Py3.past_lats].
    destruct (compute _) as [b|e]; cbn [fst]; [|split; assumption].
    destruct (store_history_ok (to_degrees (sublong b)) (to_degrees (sublat b))
                _ _ He Hc) as [H1 [H2 _]].
    split; assumption.
  - destruct (key =? "left")%string; [|split; assumption].
    cbn [Py3.current_time Py3.past_lons Py3.past_lats].
    destruct (compute _) as [b|e]; cbn [fst]; [|split; assumption].
    destruct (store_history_ok (to_degrees (sublong b)) (to_degrees (sublat b))
                _ _ He Hc) as [H1 [H2 _]].
    split; assumption.
Qed.

(** X23: over any run of key presses the two histories of the stepped
    tracker keep one common length, never above 100. *)
Theorem py3_history_invariant keys st :
  history_ok st -> history_ok (press_keys_py3 compute keys st).
Proof.
  unfold press_keys_py3. revert st.
  induction keys as [|key keys IH]; intros st H; [exact H|].
  cbn [fold_left]. apply IH. now apply on_key_history_ok.
Qed.


End Py3Facts.

Lemma py3_history_invariant_witness :
  history_ok (press_keys_py3 steady ["right"%string; "left"%string]
                (Py3.mkState 0 [] [] None ([], []))).
Proof.
  apply (py3_history_invariant unit steady).
  split; cbn; lia.
Defined.




(** X26: after an answered request the newest position is the last entry
    of the live trail and the position of the dot, the drawn trail is the
    list of positions, and a trail within its capacity grows by one entry
    until it holds 200. *)
Theorem project1_update_newest_last lat lon (ts : Z) st :
  let st' := Project1.update (Some (lat, lon, ts)) st in
  last (Project1.positions st') (0, 0)%R = (lon, lat) /\
  Project1.iss_dot st' = ([lon], [lat]) /\
  Project1.trail st' =
    (map fst (Project1.positions st'), map snd (Project1.positions st')) /\
  ((List.length (Project1.positions st) <= 200)%nat ->
   List.length (Project1.positions st') =
   Nat.min 200 (S (List.length (Project1.positions st)))).
Proof.
  cbv zeta. cbn [Project1.update Project1.positions Project1.iss_dot
                 Project1.trail].
  split; [|split; [reflexivity|split; [reflexivity|]]].
  - unfold Project1.update_trail. rewrite length_app. cbn [List.length].
    destruct (Nat.ltb_spec 200 (List.length (Project1.positions st) + 1)).
    + destruct (Project1.positions st) as [|p ps]; [cbn in *; lia|].
      cbn [app tl]. apply last_last.
    + apply last_last.
  - intros H. unfold Project1.update_trail. rewrite length_app.
    cbn [List.length].
    destruct (Nat.ltb_spec 200 (List.length (Project1.positions st) + 1)).
    + rewrite length_tl, length_app. cbn [List.length]. lia.
    + rewrite length_app. cbn [List.length]. lia.
Qed.

Lemma project1_update_newest_last_witness :
  List.length (Project1.positions
     (Project1.update (Some (1, 2, 3%Z))%R (Project1.initial_state None))) =
  Nat.min 200 1.
Proof.
  apply (proj2 (proj2 (proj2 (project1_update_newest_last 1 2 3
                                (Project1.initial_state None))))).
  cbn. lia.
Defined.

Close Scope Z_scope.

(** ** What a successful redraw shows *)

Section RedrawGeometry.
Variable exn : Type.
Variable compute : propagator exn.
Local Open Scope R_scope.


End RedrawGeometry.

